(** * Friendship request lifecycle: a shallow embedding

    This development models the tRPC routers of the repository
    ([friendship-request-router.ts] and the friend-info router with
    [getById]) over an explicit relational store, and proves the
    properties of the friendship state machine about that model.

    The store is a pair of tables.  A table is the list of its rows in
    insertion order; a [where] clause is a filter, [executeTakeFirst] is the
    head of the selected rows, [updateTable ... set ... where] rewrites every
    selected row, and [insertInto] appends a row whose [id] is drawn from the
    table's sequence.  Identifiers that passed the zod [IdSchema] are natural
    numbers. *)

From stdpp Require Import base decidable option list gmap strings.

(** ** Tables *)

Inductive FriendshipStatus := requested | accepted | declined.

#[global] Instance FriendshipStatus_eq_dec : EqDecision FriendshipStatus.
Proof. solve_decision. Defined.

(** [interface Friendship] *)
Record Friendship := {
  id : nat;
  userId : nat;
  friendUserId : nat;
  status : FriendshipStatus;
}.

#[global] Instance Friendship_eq_dec : EqDecision Friendship.
Proof. solve_decision. Defined.

(** A row of the [users] table, with the columns [getById] selects. *)
Module User.
Record t := {
  id : nat;
  fullName : string;
  phoneNumber : string;
}.
End User.

Record Db := {
  users : list User.t;
  friendships : list Friendship;
  friendships_seq : nat;
}.

(** ** Errors and the effect of a handler *)

Inductive TRPCCode := BAD_REQUEST | NOT_FOUND | UNAUTHORIZED.

Record TRPCError := {
  code : TRPCCode;
  message : option string;
}.

#[global] Instance TRPCCode_eq_dec : EqDecision TRPCCode.
Proof. solve_decision. Defined.

#[global] Instance TRPCError_eq_dec : EqDecision TRPCError.
Proof. solve_decision. Defined.

Inductive Outcome (A : Type) :=
  | Resolved (a : A)
  | Rejected (e : TRPCError).
Arguments Resolved {A} a.
Arguments Rejected {A} e.

(** An awaited computation against [ctx.db].  A rejection carries the store
    as it stands when the error is thrown: writes made before a [throw] stay,
    unless a [transaction] rolls them back. *)
Definition Async (A : Type) : Type := Db → Db * Outcome A.

Definition resolve {A} (a : A) : Async A := λ db, (db, Resolved a).

Definition throw {A} (e : TRPCError) : Async A := λ db, (db, Rejected e).

Definition await {A B} (m : Async A) (k : A → Async B) : Async B :=
  λ db, match m db with
        | (db', Resolved a) => k a db'
        | (db', Rejected e) => (db', Rejected e)
        end.

Notation "x ←await m ; k" := (await m (λ x, k))
  (at level 100, m at next level, right associativity, only parsing).
Notation "'await!' m ; k" := (await m (λ _, k))
  (at level 100, m at next level, right associativity, only parsing).

(** [db.transaction().execute(...)]: commit on success, roll back on a
    rejection. *)
Definition transaction {A} (m : Async A) : Async A :=
  λ db, match m db with
        | (db', Resolved a) => (db', Resolved a)
        | (_, Rejected e) => (db, Rejected e)
        end.

(** ** Query primitives on the [friendships] table *)

(** [.where('userId', '=', u).where('friendUserId', '=', f)] *)
Definition edge (u f : nat) (r : Friendship) : Prop :=
  userId r = u ∧ friendUserId r = f.

#[global] Instance edge_dec u f r : Decision (edge u f r).
Proof. unfold edge. apply _. Defined.

Definition set_status (s : FriendshipStatus) (r : Friendship) : Friendship :=
  {| id := id r; userId := userId r; friendUserId := friendUserId r;
     status := s |}.

Definition update_rows (P : Friendship → Prop) `{∀ r, Decision (P r)}
    (s : FriendshipStatus) (rows : list Friendship) : list Friendship :=
  (λ r, if decide (P r) then set_status s r else r) <$> rows.

Definition selectFriendships (P : Friendship → Prop) `{∀ r, Decision (P r)}
    : Async (list Friendship) :=
  λ db, (db, Resolved (filter P (friendships db))).

Definition selectUsers (P : User.t → Prop) `{∀ r, Decision (P r)}
    : Async (list User.t) :=
  λ db, (db, Resolved (filter P (users db))).

Definition executeTakeFirst {A} (rows : list A) : option A := head rows.

Definition executeTakeFirstOrThrow {A} (rows : list A) (e : TRPCError)
    : Async A :=
  match head rows with
  | Some r => resolve r
  | None => throw e
  end.

Definition updateFriendships (P : Friendship → Prop) `{∀ r, Decision (P r)}
    (s : FriendshipStatus) : Async unit :=
  λ db, ({| users := users db;
            friendships := update_rows P s (friendships db);
            friendships_seq := friendships_seq db |}, Resolved ()).

Definition insertFriendship (u f : nat) (s : FriendshipStatus) : Async unit :=
  λ db, ({| users := users db;
            friendships := friendships db ++
              [ {| id := friendships_seq db; userId := u;
                   friendUserId := f; status := s |} ];
            friendships_seq := S (friendships_seq db) |}, Resolved ()).

(** ** Middlewares *)

(** Modelled from the spec: [authGuard] (imported from
    [@/server/trpc/middlewares/auth-guard], not part of the sources at hand).
    The authentication collaborator supplies the trusted caller identity;
    its absence fails with Unauthorized before any lifecycle logic runs. *)
Definition Unauthorized : TRPCError :=
  {| code := UNAUTHORIZED; message := None |}.

Definition authGuard (session : option nat) : Async nat :=
  match session with
  | Some uid => resolve uid
  | None => throw Unauthorized
  end.

Definition BadRequest : TRPCError :=
  {| code := BAD_REQUEST; message := None |}.

Definition canSendFriendshipRequest {A} (session : option nat)
    (friendUserId : nat) (next : nat → Async A) : Async A :=
  uid ←await authGuard session;
  rows ←await selectUsers (λ u, User.id u = friendUserId);
  await! executeTakeFirstOrThrow (take 1 rows) BadRequest;
  next uid.

Definition pending (from to : nat) (r : Friendship) : Prop :=
  userId r = from ∧ friendUserId r = to ∧ status r = requested.

#[global] Instance pending_dec from to r : Decision (pending from to r).
Proof. unfold pending. apply _. Defined.

Definition canAnswerFriendshipRequest {A} (session : option nat)
    (friendUserId : nat) (next : nat → Async A) : Async A :=
  uid ←await authGuard session;
  rows ←await selectFriendships (pending friendUserId uid);
  await! executeTakeFirstOrThrow (take 1 rows) BadRequest;
  next uid.

(** ** Lifecycle *)

Definition AlreadyExists : TRPCError :=
  {| code := BAD_REQUEST;
     message := Some "Yêu cầu kết bạn đã tồn tại hoặc đã được chấp nhận." |}.

Definition checkAndUpdateFriendshipRequest (userId friendUserId : nat)
    : Async unit :=
  rows ←await selectFriendships (edge userId friendUserId);
  match executeTakeFirst rows with
  | Some existingFriendship =>
      if decide (status existingFriendship = declined)
      then updateFriendships (edge userId friendUserId) requested
      else throw AlreadyExists
  | None => insertFriendship userId friendUserId requested
  end.

Definition acceptFriendshipRequest (userId friendUserId : nat) : Async unit :=
  await! updateFriendships (edge friendUserId userId) accepted;
  rows ←await selectFriendships (edge userId friendUserId);
  match executeTakeFirst rows with
  | Some _ => updateFriendships (edge userId friendUserId) accepted
  | None => insertFriendship userId friendUserId accepted
  end.

(** ** The router *)

Definition send (session : option nat) (friendUserId : nat) : Async unit :=
  canSendFriendshipRequest session friendUserId (λ uid,
    checkAndUpdateFriendshipRequest uid friendUserId).

Definition accept (session : option nat) (friendUserId : nat) : Async unit :=
  canAnswerFriendshipRequest session friendUserId (λ uid,
    transaction (acceptFriendshipRequest uid friendUserId)).

Definition decline (session : option nat) (friendUserId : nat) : Async unit :=
  canAnswerFriendshipRequest session friendUserId (λ uid,
    updateFriendships (edge friendUserId uid) declined).

(** ** The friend-info read ([getById]) *)

Module FriendInfo.
Record t := {
  id : nat;
  fullName : string;
  phoneNumber : string;
  totalFriendCount : nat;
  mutualFriendCount : nat;
}.
End FriendInfo.

(** [l1.innerJoin(l2, on)]: the pairs of rows related by [on], in the order
    of a nested loop. *)
Definition innerJoin {A B} (l1 : list A) (l2 : list B) (on : A → B → Prop)
    `{∀ a b, Decision (on a b)} : list (A * B) :=
  a ← l1; b ← l2; if decide (on a b) then [(a, b)] else [].

(** ['f1.friendUserId', 'f2.friendUserId'] *)
Definition same_friend (f1 f2 : Friendship) : Prop :=
  friendUserId f1 = friendUserId f2.

#[global] Instance same_friend_dec f1 f2 : Decision (same_friend f1 f2).
Proof. unfold same_friend. apply _. Defined.

(** ['friendships.friendUserId', 'friends.id'] *)
Definition friend_is (friends : User.t) (f : Friendship) : Prop :=
  friendUserId f = User.id friends.

#[global] Instance friend_is_dec u f : Decision (friend_is u f).
Proof. unfold friend_is. apply _. Defined.

(** ['userTotalFriendCount.userId', 'friends.id'] *)
Definition count_of (row : User.t * Friendship) (tc : nat * nat) : Prop :=
  tc.1 = User.id row.1.

#[global] Instance count_of_dec row tc : Decision (count_of row tc).
Proof. unfold count_of. apply _. Defined.

(** The [where] clauses of the mutual-friend query over [f1 ⋈ f2]. *)
Definition mutual_where (caller target : nat) (p : Friendship * Friendship)
    : Prop :=
  userId p.1 = caller ∧ userId p.2 = target ∧
  status p.1 = accepted ∧ status p.2 = accepted.

#[global] Instance mutual_where_dec c t p : Decision (mutual_where c t p).
Proof. unfold mutual_where. apply _. Defined.

(** [count(f1.friendUserId)] over the joined rows; the column is never null,
    so this is the number of joined rows. *)
Definition mutualFriendCountQuery (rows : list Friendship)
    (caller target : nat) : nat :=
  length (filter (mutual_where caller target)
            (innerJoin rows rows same_friend)).

(** [userTotalFriendCount]: accepted rows grouped by [userId], one
    [(userId, totalFriendCount)] row per group. *)
Definition userTotalFriendCount (rows : list Friendship) : list (nat * nat) :=
  let acc := filter (λ r, status r = accepted) rows in
  (λ u, (u, length (filter (λ r, userId r = u) acc)))
    <$> remove_dups (userId <$> acc).

Definition friendInfoQuery (db : Db) (caller target : nat)
    : list (User.t * Friendship * (nat * nat)) :=
  filter (λ row, edge caller target row.1.2 ∧ status row.1.2 = accepted)
    (innerJoin
       (innerJoin (users db) (friendships db) friend_is)
       (userTotalFriendCount (friendships db))
       count_of).

Definition NotFound : TRPCError := {| code := NOT_FOUND; message := None |}.

(** [getById].  [protectedProcedure] is imported from
    [@/server/trpc/procedures]; it is taken to be the base procedure behind
    [authGuard], which yields the caller of the session.  The final
    [friendInfoSchema.parse] checks the shape of the record and is not
    modelled. *)
Definition getById (session : option nat) (friendUserId : nat)
    : Async FriendInfo.t :=
  uid ←await authGuard session;
  mutualFriendCountResult ←await
    (λ db, resolve (mutualFriendCountQuery (friendships db) uid friendUserId) db);
  friendInfo ←await
    (λ db, executeTakeFirstOrThrow (friendInfoQuery db uid friendUserId)
             NotFound db);
  resolve {| FriendInfo.id := User.id friendInfo.1.1;
             FriendInfo.fullName := User.fullName friendInfo.1.1;
             FriendInfo.phoneNumber := User.phoneNumber friendInfo.1.1;
             FriendInfo.totalFriendCount := friendInfo.2.2;
             FriendInfo.mutualFriendCount := mutualFriendCountResult |}.

(** ** Observations and histories *)

(** The point lookup of an edge: the status of the first row of the ordered
    pair, as [executeTakeFirst] reads it. *)
Definition edgeStatus (db : Db) (u f : nat) : option FriendshipStatus :=
  status <$> head (filter (edge u f) (friendships db)).

(** The rows stored for an ordered pair. *)
Definition edgeRows (db : Db) (u f : nat) : list Friendship :=
  filter (edge u f) (friendships db).

(** Identity of the data model: at most one row per ordered pair. *)
Definition pair_of (r : Friendship) : nat * nat := (userId r, friendUserId r).

Definition unique_pairs (db : Db) : Prop := NoDup (pair_of <$> friendships db).

(** What a mutation may not touch: the key columns of a row. *)
Definition key_of (r : Friendship) : nat * nat * nat :=
  (id r, userId r, friendUserId r).

(** A mutating call of the API, with the session it arrives with. *)
Inductive Call :=
  | Send (session : option nat) (friendUserId : nat)
  | Accept (session : option nat) (friendUserId : nat)
  | Decline (session : option nat) (friendUserId : nat).

Definition handler (c : Call) : Async unit :=
  match c with
  | Send s f => send s f
  | Accept s f => accept s f
  | Decline s f => decline s f
  end.

(** The store after a call, whether it resolved or was rejected. *)
Definition exec (c : Call) (db : Db) : Db := (handler c db).1.

Definition run (cs : list Call) (db : Db) : Db := foldl (flip exec) db cs.

(** A send whose target is the caller. *)
Definition self_send (c : Call) : Prop :=
  match c with
  | Send (Some uid) f => uid = f
  | _ => False
  end.

(** A store before any friendship was requested. *)
Definition fresh (db : Db) : Prop := friendships db = [].

(** The store after the two writes the handlers issue. *)
Definition set_edge (u f : nat) (s : FriendshipStatus) (db : Db) : Db :=
  (updateFriendships (edge u f) s db).1.

Definition add_edge (u f : nat) (s : FriendshipStatus) (db : Db) : Db :=
  (insertFriendship u f s db).1.

(** The target of a send is a row of [users]. *)
Definition user_exists (db : Db) (uid : nat) : Prop :=
  Exists (λ u, User.id u = uid) (users db).

(** Some row [(from, to)] has status exactly [requested]. *)
Definition has_pending (db : Db) (from to : nat) : Prop :=
  Exists (pending from to) (friendships db).

(** Invariant I1: no row relates a user to themselves. *)
Definition irreflexive (db : Db) : Prop :=
  ∀ r, r ∈ friendships db → userId r ≠ friendUserId r.

(** Invariant I2: an accepted edge has an accepted mirror. *)
Definition symmetric_accept (db : Db) : Prop :=
  ∀ x y, edgeStatus db x y = Some accepted → edgeStatus db y x = Some accepted.

(** The accepted outbound rows of a user, and the set of their targets. *)
Definition outbound (u : nat) (r : Friendship) : Prop :=
  userId r = u ∧ status r = accepted.

#[global] Instance outbound_dec u r : Decision (outbound u r).
Proof. unfold outbound. apply _. Defined.

Definition accepted_out (db : Db) (u : nat) : gset nat :=
  list_to_set (friendUserId <$> filter (outbound u) (friendships db)).

(** The accepted inbound rows of a user, and the set of their senders. *)
Definition inbound (u : nat) (r : Friendship) : Prop :=
  friendUserId r = u ∧ status r = accepted.

#[global] Instance inbound_dec u r : Decision (inbound u r).
Proof. unfold inbound. apply _. Defined.

Definition accepted_in (db : Db) (u : nat) : gset nat :=
  list_to_set (userId <$> filter (inbound u) (friendships db)).

(** ** Sample stores *)

Definition user (n : nat) : User.t :=
  {| User.id := n; User.fullName := "user"; User.phoneNumber := "0000" |}.

(** Four users (A = 1, B = 2, C = 3, D = 4) and no friendship yet. *)
Definition db0 : Db :=
  {| users := user <$> [1; 2; 3; 4]; friendships := []; friendships_seq := 1 |}.

(** A has a pending request to B. *)
Definition db_sent : Db := run [Send (Some 1) 2] db0.

(** B's own request to A was declined, then A asked B. *)
Definition db_crossed : Db :=
  run [Send (Some 2) 1; Decline (Some 1) 2; Send (Some 1) 2] db0.

(** A and B are friends. *)
Definition db_friends : Db := run [Send (Some 1) 2; Accept (Some 2) 1] db0.

(** A and D are each friends with both B and C. *)
Definition db_shared : Db :=
  run [Send (Some 1) 2; Accept (Some 2) 1; Send (Some 1) 3; Accept (Some 3) 1;
       Send (Some 4) 2; Accept (Some 2) 4; Send (Some 4) 3; Accept (Some 3) 4]
      db0.

(** ... and B and C are friends as well. *)
Definition db_mutual : Db := run [Send (Some 2) 3; Accept (Some 3) 2] db_shared.

(** * Properties *)

(** ** Rows under update and insert *)

Section rows.
Implicit Types (rows : list Friendship) (r : Friendship).
Implicit Types (s : FriendshipStatus) (u f x y : nat).

Lemma key_of_set_status s r : key_of (set_status s r) = key_of r.
Proof. done. Qed.

Lemma update_rows_keys (P : Friendship → Prop) `{∀ r, Decision (P r)} s rows :
  key_of <$> update_rows P s rows = key_of <$> rows.
Proof.
  unfold update_rows. rewrite <- list_fmap_compose.
  apply list_fmap_ext. intros _ r _. simpl. by case_decide.
Qed.

Lemma update_rows_pairs (P : Friendship → Prop) `{∀ r, Decision (P r)} s rows :
  pair_of <$> update_rows P s rows = pair_of <$> rows.
Proof.
  unfold update_rows. rewrite <- list_fmap_compose.
  apply list_fmap_ext. intros _ r _. simpl. by case_decide.
Qed.

Lemma filter_edge_update u f s x y rows :
  filter (edge x y) (update_rows (edge u f) s rows) =
  if decide (x = u ∧ y = f)
  then set_status s <$> filter (edge x y) rows
  else filter (edge x y) rows.
Proof.
  induction rows as [|r rows IH]; [by case_decide|].
  unfold update_rows in *. rewrite fmap_cons, !filter_cons, IH.
  repeat case_decide; try done; unfold edge in *; simpl in *;
    intuition (subst; tauto || congruence).
Qed.

Lemma filter_edge_snoc x y rows r :
  filter (edge x y) (rows ++ [r]) =
  filter (edge x y) rows ++ (if decide (edge x y r) then [r] else []).
Proof. rewrite filter_app, filter_cons, filter_nil. by case_decide. Qed.

Lemma head_snoc {A} (l k : list A) :
  head (l ++ k) = match head l with Some a => Some a | None => head k end.
Proof. by destruct l. Qed.

Lemma head_take_1 {A} (l : list A) : head (take 1 l) = head l.
Proof. by destruct l. Qed.

End rows.

(** ** Point lookups after a write *)

Section writes.
Implicit Types (db : Db) (s : FriendshipStatus) (u f x y : nat).

Lemma edgeRows_set_edge u f s db x y :
  edgeRows (set_edge u f s db) x y =
  if decide (x = u ∧ y = f)
  then set_status s <$> edgeRows db x y
  else edgeRows db x y.
Proof. unfold edgeRows, set_edge. simpl. apply filter_edge_update. Qed.

Lemma edgeRows_add_edge u f s db x y :
  edgeRows (add_edge u f s db) x y =
  edgeRows db x y ++
    (if decide (x = u ∧ y = f)
     then [ {| id := friendships_seq db; userId := u; friendUserId := f;
               status := s |} ]
     else []).
Proof.
  unfold edgeRows, add_edge. simpl. rewrite filter_edge_snoc.
  f_equal. unfold edge; simpl.
  repeat case_decide; try done; intuition (subst; tauto || congruence).
Qed.

Lemma edgeStatus_rows db x y : edgeStatus db x y = status <$> head (edgeRows db x y).
Proof. done. Qed.

Lemma edgeStatus_set_edge u f s db x y :
  edgeStatus (set_edge u f s db) x y =
  if decide (x = u ∧ y = f)
  then (λ _, s) <$> edgeStatus db x y
  else edgeStatus db x y.
Proof.
  rewrite !edgeStatus_rows, edgeRows_set_edge.
  case_decide; [|done]. by destruct (edgeRows db x y).
Qed.

Lemma edgeStatus_add_edge u f s db x y :
  edgeStatus (add_edge u f s db) x y =
  match edgeStatus db x y with
  | Some s' => Some s'
  | None => if decide (x = u ∧ y = f) then Some s else None
  end.
Proof.
  rewrite !edgeStatus_rows, edgeRows_add_edge, head_snoc.
  destruct (head (edgeRows db x y)); [done|]. by case_decide.
Qed.

Lemma edgeStatus_None db x y : edgeStatus db x y = None ↔ edgeRows db x y = [].
Proof.
  rewrite edgeStatus_rows. by destruct (edgeRows db x y).
Qed.

Lemma edgeRows_elem db x y r :
  r ∈ edgeRows db x y ↔ r ∈ friendships db ∧ userId r = x ∧ friendUserId r = y.
Proof. unfold edgeRows. rewrite list_elem_of_filter. unfold edge. tauto. Qed.

Lemma users_set_edge u f s db : users (set_edge u f s db) = users db.
Proof. done. Qed.

Lemma users_add_edge u f s db : users (add_edge u f s db) = users db.
Proof. done. Qed.

Lemma keys_set_edge u f s db :
  key_of <$> friendships (set_edge u f s db) = key_of <$> friendships db.
Proof. apply update_rows_keys. Qed.

Lemma keys_add_edge u f s db :
  key_of <$> friendships (add_edge u f s db) =
  (key_of <$> friendships db) ++ [(friendships_seq db, u, f)].
Proof. unfold add_edge; simpl. by rewrite fmap_app. Qed.

Lemma unique_pairs_set_edge u f s db :
  unique_pairs db → unique_pairs (set_edge u f s db).
Proof. unfold unique_pairs, set_edge; simpl. by rewrite update_rows_pairs. Qed.

Lemma unique_pairs_add_edge u f s db :
  edgeStatus db u f = None → unique_pairs db → unique_pairs (add_edge u f s db).
Proof.
  rewrite edgeStatus_None. unfold unique_pairs, add_edge; simpl.
  intros Hnone Hnd. rewrite fmap_app. apply NoDup_app. split; [done|].
  split; [|apply NoDup_singleton].
  intros p [r [-> Hr]]%list_elem_of_fmap Hin. simpl in Hin.
  apply list_elem_of_singleton in Hin. unfold pair_of in Hin; simpl in Hin.
  assert (r ∈ edgeRows db u f) as Hmem.
  { apply edgeRows_elem. split; [done|]. by simplify_eq. }
  rewrite Hnone in Hmem. by apply elem_of_nil in Hmem.
Qed.

(** Under the identity of the data model a pair has at most one row. *)
Lemma unique_pairs_rows db x y :
  unique_pairs db → length (edgeRows db x y) ≤ 1.
Proof.
  unfold unique_pairs, edgeRows.
  induction (friendships db) as [|r rows IH]; [simpl; lia|].
  rewrite fmap_cons, NoDup_cons, filter_cons. intros [Hr Hnd].
  case_decide as He; [|by apply IH].
  assert (filter (edge x y) rows = []) as ->; [|simpl; lia].
  destruct (filter (edge x y) rows) as [|r' l'] eqn:Hf; [done|]. exfalso.
  assert (r' ∈ filter (edge x y) rows) as [He' Hin]%list_elem_of_filter
    by (rewrite Hf; left).
  apply Hr, list_elem_of_fmap. exists r'. split; [|done].
  unfold pair_of. destruct He as [-> ->], He' as [-> ->]. done.
Qed.

Lemma has_pending_status db x y :
  unique_pairs db → has_pending db x y ↔ edgeStatus db x y = Some requested.
Proof.
  intros Hu. pose proof (unique_pairs_rows db x y Hu) as Hlen.
  rewrite edgeStatus_rows. split.
  - intros (r & Hin & <- & <- & Hs)%Exists_exists.
    assert (r ∈ edgeRows db (userId r) (friendUserId r)) as Hmem
      by by apply edgeRows_elem.
    destruct (edgeRows db (userId r) (friendUserId r)) as [|r1 [|r2 l]];
      [by apply elem_of_nil in Hmem| |simpl in Hlen; lia].
    apply list_elem_of_singleton in Hmem as ->. simpl. by rewrite Hs.
  - destruct (edgeRows db x y) as [|r l] eqn:Hrows; [done|].
    simpl. intros [= Hs]. apply Exists_exists. exists r.
    assert (r ∈ edgeRows db x y) as Hmem by (rewrite Hrows; left).
    apply edgeRows_elem in Hmem as (? & ? & ?). by repeat split.
Qed.

Lemma status_has_pending db x y :
  edgeStatus db x y = Some requested → has_pending db x y.
Proof.
  rewrite edgeStatus_rows.
  destruct (edgeRows db x y) as [|r l] eqn:Hrows; [done|].
  simpl. intros [= Hs]. apply Exists_exists. exists r.
  assert (r ∈ edgeRows db x y) as Hmem by (rewrite Hrows; left).
  apply edgeRows_elem in Hmem as (? & ? & ?). by repeat split.
Qed.
End writes.

(** ** The handlers, case by case *)

Section handlers.
Implicit Types (db : Db) (c t r : nat).

Lemma filter_head_Exists {A} (P : A → Prop) `{∀ a, Decision (P a)} (l : list A) :
  is_Some (head (take 1 (filter P l))) ↔ Exists P l.
Proof.
  rewrite head_take_1, Exists_exists. split.
  - intros [a Ha]. apply head_Some in Ha as [l' Hl].
    assert (a ∈ filter P l) as [? ?]%list_elem_of_filter by (rewrite Hl; left).
    eauto.
  - intros (a & Hin & Ha).
    assert (a ∈ filter P l) as Hmem by by apply list_elem_of_filter.
    destruct (filter P l); [by apply elem_of_nil in Hmem|]. by eexists.
Qed.

Lemma send_cases c t db :
  send (Some c) t db =
  if decide (user_exists db t) then
    match edgeStatus db c t with
    | None => (add_edge c t requested db, Resolved ())
    | Some declined => (set_edge c t requested db, Resolved ())
    | Some _ => (db, Rejected AlreadyExists)
    end
  else (db, Rejected BadRequest).
Proof.
  unfold send, canSendFriendshipRequest, await, executeTakeFirstOrThrow.
  simpl.
  pose proof (filter_head_Exists (λ u, User.id u = t) (users db)) as Hex.
  fold (user_exists db t) in Hex.
  destruct (head (take 1 _)) as [u|].
  - rewrite decide_True by (apply Hex; eauto). simpl.
    unfold checkAndUpdateFriendshipRequest, await, executeTakeFirst. simpl.
    unfold edgeStatus.
    destruct (head (filter (edge c t) (friendships db))) as [e|]; [|done].
    simpl. by destruct (status e).
  - rewrite decide_False; [done|]. intros [? [=]]%Hex.
Qed.

Lemma accept_cases c r db :
  accept (Some c) r db =
  if decide (has_pending db r c) then
    let db1 := set_edge r c accepted db in
    match edgeStatus db1 c r with
    | Some _ => (set_edge c r accepted db1, Resolved ())
    | None => (add_edge c r accepted db1, Resolved ())
    end
  else (db, Rejected BadRequest).
Proof.
  unfold accept, canAnswerFriendshipRequest, await, executeTakeFirstOrThrow.
  simpl.
  pose proof (filter_head_Exists (pending r c) (friendships db)) as Hex.
  fold (has_pending db r c) in Hex.
  destruct (head (take 1 _)) as [u|].
  - rewrite decide_True by (apply Hex; eauto). simpl.
    unfold transaction, acceptFriendshipRequest, await, executeTakeFirst.
    simpl. unfold edgeStatus, set_edge. simpl.
    by destruct (head (filter (edge c r) _)).
  - rewrite decide_False; [done|]. intros [? [=]]%Hex.
Qed.

Lemma decline_cases c r db :
  decline (Some c) r db =
  if decide (has_pending db r c)
  then (set_edge r c declined db, Resolved ())
  else (db, Rejected BadRequest).
Proof.
  unfold decline, canAnswerFriendshipRequest, await, executeTakeFirstOrThrow.
  simpl.
  pose proof (filter_head_Exists (pending r c) (friendships db)) as Hex.
  fold (has_pending db r c) in Hex.
  destruct (head (take 1 _)) as [u|].
  - by rewrite decide_True by (apply Hex; eauto).
  - rewrite decide_False; [done|]. intros [? [=]]%Hex.
Qed.

Lemma unauthorized_cases f db :
  send None f db = (db, Rejected Unauthorized) ∧
  accept None f db = (db, Rejected Unauthorized) ∧
  decline None f db = (db, Rejected Unauthorized).
Proof. done. Qed.
End handlers.

(** ** The transition table, read through point lookups *)

Section transitions.
Implicit Types (db : Db) (c t r x y : nat).

Lemma has_pending_is_Some db r c :
  has_pending db r c → is_Some (edgeStatus db r c).
Proof.
  intros (row & Hin & Hu & Hf & _)%Exists_exists.
  assert (row ∈ edgeRows db r c) as Hmem by by apply edgeRows_elem.
  rewrite edgeStatus_rows.
  destruct (edgeRows db r c); [by apply elem_of_nil in Hmem|]. by eexists.
Qed.

Lemma send_edgeStatus c t db x y :
  edgeStatus (exec (Send (Some c) t) db) x y =
  if decide (user_exists db t ∧ x = c ∧ y = t) then
    match edgeStatus db c t with
    | None | Some declined => Some requested
    | Some s => Some s
    end
  else edgeStatus db x y.
Proof.
  unfold exec; simpl. rewrite send_cases.
  destruct (decide (user_exists db t)) as [Hu|Hu];
    [|by rewrite decide_False by tauto].
  destruct (edgeStatus db c t) as [[]|] eqn:Hs; simpl;
    rewrite ?edgeStatus_set_edge, ?edgeStatus_add_edge;
    repeat case_decide; destruct_and?; simplify_eq; try tauto;
    rewrite ?Hs; try done.
  by destruct (edgeStatus db x y).
Qed.

Lemma accept_edgeStatus c r db x y :
  edgeStatus (exec (Accept (Some c) r) db) x y =
  if decide (has_pending db r c ∧ ((x = r ∧ y = c) ∨ (x = c ∧ y = r)))
  then Some accepted
  else edgeStatus db x y.
Proof.
  unfold exec; simpl. rewrite accept_cases.
  destruct (decide (has_pending db r c)) as [Hp|Hp];
    [|by rewrite decide_False by tauto].
  apply has_pending_is_Some in Hp as Hrc. destruct Hrc as [s Hrc]. simpl.
  destruct (edgeStatus (set_edge r c accepted db) c r) as [s'|] eqn:Hm; simpl;
    rewrite edgeStatus_set_edge in Hm;
    rewrite ?edgeStatus_set_edge, ?edgeStatus_add_edge;
    rewrite ?edgeStatus_set_edge;
    repeat case_decide; destruct_and?; destruct_or?; destruct_and?;
    simplify_eq; try tauto; rewrite ?Hrc in *; simplify_eq/=; try done.
  all: try (by rewrite Hm).
  all: by destruct (edgeStatus db x y).
Qed.

Lemma decline_edgeStatus c r db x y :
  edgeStatus (exec (Decline (Some c) r) db) x y =
  if decide (has_pending db r c ∧ x = r ∧ y = c)
  then Some declined
  else edgeStatus db x y.
Proof.
  unfold exec; simpl. rewrite decline_cases.
  destruct (decide (has_pending db r c)) as [Hp|Hp];
    [|by rewrite decide_False by tauto].
  apply has_pending_is_Some in Hp as Hrc. destruct Hrc as [s Hrc]. simpl.
  rewrite edgeStatus_set_edge.
  repeat case_decide; destruct_and?; simplify_eq; try tauto.
  by rewrite Hrc.
Qed.

Lemma exec_unauthorized (call : option nat → nat → Call) f db :
  (call = Send ∨ call = Accept ∨ call = Decline) → exec (call None f) db = db.
Proof. by intros [->|[->| ->]]. Qed.

Lemma exec_users call db : users (exec call db) = users db.
Proof.
  unfold exec. destruct call as [[c|] t|[c|] r|[c|] r]; simpl; try done.
  - rewrite send_cases. case_decide; [|done].
    by destruct (edgeStatus db c t) as [[]|].
  - rewrite accept_cases. case_decide; [|done]. simpl.
    by destruct (edgeStatus _ c r).
  - rewrite decline_cases. by case_decide.
Qed.
End transitions.

(** ** Invariants of the store *)

Section invariants.
Implicit Types (db : Db) (call : Call) (cs : list Call).

Lemma pairs_set_edge u f s db :
  pair_of <$> friendships (set_edge u f s db) = pair_of <$> friendships db.
Proof. apply update_rows_pairs. Qed.

Lemma pairs_add_edge u f s db :
  pair_of <$> friendships (add_edge u f s db) =
  (pair_of <$> friendships db) ++ [(u, f)].
Proof. unfold add_edge; simpl. by rewrite fmap_app. Qed.

Lemma exec_unique_pairs call db :
  unique_pairs db → unique_pairs (exec call db).
Proof.
  intros Hu. unfold exec.
  destruct call as [[c|] t|[c|] r|[c|] r]; simpl; try done.
  - rewrite send_cases. case_decide; [|done].
    destruct (edgeStatus db c t) as [[]|] eqn:Hs; simpl; try done.
    + by apply unique_pairs_set_edge.
    + by apply unique_pairs_add_edge.
  - rewrite accept_cases. case_decide; [|done]. simpl.
    destruct (edgeStatus _ c r) eqn:Hs; simpl.
    + by do 2 apply unique_pairs_set_edge.
    + apply unique_pairs_add_edge; [done|]. by apply unique_pairs_set_edge.
  - rewrite decline_cases. case_decide; [|done]. simpl.
    by apply unique_pairs_set_edge.
Qed.

Lemma run_snoc cs call db : run (cs ++ [call]) db = exec call (run cs db).
Proof. unfold run. by rewrite foldl_snoc. Qed.

Lemma run_unique_pairs cs db : unique_pairs db → unique_pairs (run cs db).
Proof.
  intros Hu. induction cs as [|call cs IH] using rev_ind; [done|].
  rewrite run_snoc. by apply exec_unique_pairs.
Qed.

Lemma fresh_unique_pairs db : fresh db → unique_pairs db.
Proof. unfold fresh, unique_pairs. intros ->. apply NoDup_nil_2. Qed.

Lemma exec_symmetric call db :
  unique_pairs db → symmetric_accept db → symmetric_accept (exec call db).
Proof.
  intros Hu Hsym x y.
  destruct call as [[c|] t|[c|] r|[c|] r]; try (by apply Hsym).
  - rewrite !send_edgeStatus.
    destruct (decide (_ ∧ x = c ∧ y = t)) as [(Ht & -> & ->)|Hxy].
    + destruct (edgeStatus db c t) as [[]|] eqn:Hs; try done.
      intros _. apply Hsym in Hs as Hm.
      by case_decide.
    + intros Hacc. apply Hsym in Hacc as Hm.
      case_decide as Htc; [|done]. destruct Htc as (_ & -> & ->).
      by rewrite Hm.
  - rewrite !accept_edgeStatus.
    destruct (decide (_ ∧ (_ ∨ _))) as [(Hp & Hxy)|Hxy].
    + intros _. rewrite decide_True; [done|]. tauto.
    + intros Hacc. apply Hsym in Hacc as Hm. by case_decide.
  - rewrite !decline_edgeStatus.
    destruct (decide (_ ∧ x = r ∧ y = c)) as [?|Hxy]; [done|].
    intros Hacc. apply Hsym in Hacc as Hm.
    case_decide as Hyx; [|done]. destruct Hyx as (Hp & -> & ->).
    apply has_pending_status in Hp; [|done]. congruence.
Qed.

Lemma run_symmetric cs db : fresh db → symmetric_accept (run cs db).
Proof.
  intros Hf. cut (unique_pairs (run cs db) ∧ symmetric_accept (run cs db));
    [tauto|].
  induction cs as [|call cs [IHu IHs]] using rev_ind.
  - split; [by apply fresh_unique_pairs|].
    intros x y. unfold edgeStatus. simpl. by rewrite Hf.
  - rewrite run_snoc. split;
      [by apply exec_unique_pairs|by apply exec_symmetric].
Qed.

Lemma irreflexive_pairs db :
  irreflexive db ↔ Forall (λ p, p.1 ≠ p.2) (pair_of <$> friendships db).
Proof.
  unfold irreflexive. rewrite Forall_fmap, Forall_forall. done.
Qed.

Lemma exec_irreflexive call db :
  ¬ self_send call → irreflexive db → irreflexive (exec call db).
Proof.
  intros Hself Hirr. unfold exec.
  destruct call as [[c|] t|[c|] r|[c|] r]; simpl in *; try done.
  - rewrite send_cases. case_decide; [|done].
    destruct (edgeStatus db c t) as [[]|] eqn:Hs; simpl; try done.
    + apply irreflexive_pairs. rewrite pairs_set_edge.
      by apply irreflexive_pairs.
    + apply irreflexive_pairs. rewrite pairs_add_edge.
      apply Forall_app. split; [by apply irreflexive_pairs|].
      by apply Forall_singleton.
  - rewrite accept_cases. case_decide as Hp; [|done]. simpl.
    apply irreflexive_pairs.
    destruct (edgeStatus _ c r) eqn:Hs; cbn [fst];
      rewrite ?pairs_add_edge, !pairs_set_edge.
    + by apply irreflexive_pairs.
    + apply Forall_app. split; [by apply irreflexive_pairs|].
      apply Forall_singleton. simpl. intros ->.
      apply Exists_exists in Hp as (row & Hin & Hu & Hf & _).
      apply (Hirr row Hin). congruence.
  - rewrite decline_cases. case_decide; [|done]. simpl.
    apply irreflexive_pairs. rewrite pairs_set_edge.
    by apply irreflexive_pairs.
Qed.
End invariants.

(** ** Acceptance *)

(** C1 — post-acceptance symmetry (I2, P3).  When the edge
    [(requesterId, callerId)] is pending, [accept] by the caller resolves and
    leaves both that edge and its mirror [(callerId, requesterId)] with status
    [accepted], every stored row of either pair included, whatever the mirror
    was before (absent, [requested] or [declined]).  Moreover no store
    reachable from a fresh one through send, accept and decline has an
    accepted edge whose mirror is not accepted. *)
Theorem accept_symmetry :
  (∀ db c r, has_pending db r c →
     ∃ db', accept (Some c) r db = (db', Resolved ()) ∧
            edgeStatus db' r c = Some accepted ∧
            edgeStatus db' c r = Some accepted ∧
            Forall (λ row, status row = accepted)
                   (edgeRows db' r c ++ edgeRows db' c r)) ∧
  (∀ db cs, fresh db → symmetric_accept (run cs db)).
Proof.
  split; [|intros db cs; apply run_symmetric].
  intros db c r Hp.
  pose proof (accept_edgeStatus c r db) as Hst.
  unfold exec in Hst; cbn [handler] in Hst.
  rewrite accept_cases, decide_True in * by done. cbv zeta in *.
  apply has_pending_is_Some in Hp as Hrc. destruct Hrc as [s Hrc].
  destruct (edgeStatus (set_edge r c accepted db) c r) as [s'|] eqn:Hm;
    cbn [fst] in Hst; eexists; (split; [reflexivity|]);
    (split; [rewrite Hst, decide_True; [done|tauto]|]);
    (split; [rewrite Hst, decide_True; [done|tauto]|]);
    apply Forall_app;
    rewrite ?edgeRows_add_edge, !edgeRows_set_edge.
  - split; repeat case_decide; try tauto;
      apply Forall_fmap, Forall_true; done.
  - rewrite edgeStatus_None, edgeRows_set_edge in Hm.
    split; repeat case_decide; try tauto; rewrite ?Hm;
      try (apply Forall_app; split);
      try (apply Forall_fmap, Forall_true; done);
      try (by apply Forall_singleton); try (by apply Forall_nil).
    all: destruct_and?; simplify_eq.
    all: rewrite edgeStatus_rows in Hrc.
    all: destruct (edgeRows db _ _); simplify_eq/=.
Qed.

Lemma accept_symmetry_witness :
  ∃ db', accept (Some 2) 1 db_crossed = (db', Resolved ()) ∧
         edgeStatus db' 1 2 = Some accepted ∧
         edgeStatus db' 2 1 = Some accepted ∧
         Forall (λ row, status row = accepted)
                (edgeRows db' 1 2 ++ edgeRows db' 2 1).
Proof.
  apply (proj1 accept_symmetry db_crossed 2 1).
  vm_compute. apply Exists_cons_tl, Exists_cons_hd. done.
Defined.

(** ** Sending *)

Lemma handler_exec call db db' out :
  handler call db = (db', out) → exec call db = db'.
Proof. unfold exec. by intros ->. Qed.

Lemma send_resolved c t db db' :
  send (Some c) t db = (db', Resolved ()) →
  user_exists db t ∧ edgeStatus db' c t = Some requested.
Proof.
  intros Hsend. pose proof (send_edgeStatus c t db c t) as Hst.
  rewrite (handler_exec (Send (Some c) t) _ _ _ Hsend) in Hst.
  rewrite send_cases in Hsend.
  destruct (decide (user_exists db t)) as [Hu|]; [|done].
  split; [done|]. rewrite Hst, decide_True by done.
  by destruct (edgeStatus db c t) as [[]|].
Qed.

(** C2 — idempotent reopen (P1).  When the point lookup of edge
    [(callerId, targetId)] reads [declined] and the target is a user, [send]
    resolves, rewrites the status of the stored rows of that pair (no row is
    added, no key changes) and the edge reads [requested].  Hence, for all A
    and B, once [send(A,B)] has resolved, [decline] by B resolves, the second
    [send(A,B)] resolves too, and edge [(A,B)] reads [requested]; on a fresh
    store the first [send(A,B)] resolves for every user B. *)
Theorem send_reopens_declined :
  (∀ db c t, user_exists db t → edgeStatus db c t = Some declined →
     send (Some c) t db = (set_edge c t requested db, Resolved ()) ∧
     edgeStatus (set_edge c t requested db) c t = Some requested ∧
     key_of <$> friendships (set_edge c t requested db) =
       key_of <$> friendships db) ∧
  (∀ db A B db1, send (Some A) B db = (db1, Resolved ()) →
     ∃ db2 db3,
       decline (Some B) A db1 = (db2, Resolved ()) ∧
       edgeStatus db2 A B = Some declined ∧
       send (Some A) B db2 = (db3, Resolved ()) ∧
       edgeStatus db3 A B = Some requested ∧
       key_of <$> friendships db3 = key_of <$> friendships db1) ∧
  (∀ db A B, fresh db → user_exists db B →
     (send (Some A) B db).2 = Resolved ()).
Proof.
  assert (∀ db c t, user_exists db t → edgeStatus db c t = Some declined →
     send (Some c) t db = (set_edge c t requested db, Resolved ()) ∧
     edgeStatus (set_edge c t requested db) c t = Some requested ∧
     key_of <$> friendships (set_edge c t requested db) =
       key_of <$> friendships db) as Hreopen.
  { intros db c t Hu Hs. rewrite send_cases, decide_True, Hs by done.
    split; [done|]. rewrite edgeStatus_set_edge, decide_True, Hs by done.
    split; [done|]. apply keys_set_edge. }
  split; [done|]. split; last first.
  { intros db A B Hfresh Hu. rewrite send_cases, decide_True by done.
    unfold edgeStatus. by rewrite Hfresh. }
  intros db A B db1 Hsent.
  pose proof (send_resolved _ _ _ _ Hsent) as [Hu Hreq].
  assert (user_exists db1 B) as Hu1.
  { unfold user_exists.
    by rewrite <- (handler_exec (Send (Some A) B) _ _ _ Hsent), exec_users. }
  clear Hsent.
  pose proof (status_has_pending _ _ _ Hreq) as Hp.
  pose proof (decline_edgeStatus B A db1 A B) as Hdec.
  unfold exec in Hdec; cbn [handler] in Hdec.
  rewrite decline_cases, decide_True in * by done. cbn [fst] in Hdec.
  rewrite decide_True in Hdec by done.
  destruct (Hreopen (set_edge A B declined db1) A B) as (Hsend & Hst & Hkeys);
    [done..|].
  exists (set_edge A B declined db1),
    (set_edge A B requested (set_edge A B declined db1)).
  split_and!; try done.
  by rewrite Hkeys, keys_set_edge.
Qed.

Lemma send_reopens_declined_witness :
  ∃ db2 db3,
    decline (Some 2) 1 db_sent = (db2, Resolved ()) ∧
    edgeStatus db2 1 2 = Some declined ∧
    send (Some 1) 2 db2 = (db3, Resolved ()) ∧
    edgeStatus db3 1 2 = Some requested ∧
    key_of <$> friendships db3 = key_of <$> friendships db_sent.
Proof.
  apply (proj1 (proj2 send_reopens_declined) db0 1 2 db_sent). reflexivity.
Defined.

(** C3 as stated does not hold: sending over a [requested] edge and sending
    over an [accepted] edge are rejected with one and the same error, so they
    are not two distinct typed failures. *)
Lemma send_failures_not_distinct :
  edgeStatus db_sent 1 2 = Some requested ∧
  edgeStatus db_friends 1 2 = Some accepted ∧
  ¬ ∃ DuplicateRequest AlreadyFriends : TRPCError,
      DuplicateRequest ≠ AlreadyFriends ∧
      (send (Some 1) 2 db_sent).2 = Rejected DuplicateRequest ∧
      (send (Some 1) 2 db_friends).2 = Rejected AlreadyFriends.
Proof.
  split; [done|]. split; [done|].
  intros (e1 & e2 & Hne & H1 & H2).
  vm_compute in H1, H2. congruence.
Qed.

(** C3, amended — no duplicate pending (P2).  For a target that is a user,
    [send] over an edge that reads [requested] or [accepted] is rejected, in
    both cases with the same [BAD_REQUEST] error (message: the request
    already exists or was already accepted), and the store is unchanged.  A
    second [send(A,B)] right after a resolved one is rejected with that error
    and, the pairs being unique before, leaves exactly one row [(A,B)]. *)
Theorem send_rejects_existing :
  (∀ db c t s, user_exists db t → edgeStatus db c t = Some s →
     s = requested ∨ s = accepted →
     send (Some c) t db = (db, Rejected AlreadyExists)) ∧
  (∀ db A B db1, unique_pairs db →
     send (Some A) B db = (db1, Resolved ()) →
     send (Some A) B db1 = (db1, Rejected AlreadyExists) ∧
     length (edgeRows db1 A B) = 1).
Proof.
  assert (∀ db c t s, user_exists db t → edgeStatus db c t = Some s →
     s = requested ∨ s = accepted →
     send (Some c) t db = (db, Rejected AlreadyExists)) as Hrej.
  { intros db c t s Hu Hs Hcase.
    rewrite send_cases, decide_True, Hs by done. by destruct Hcase as [-> | ->]. }
  split; [done|].
  intros db A B db1 Huniq Hsent.
  pose proof (send_resolved _ _ _ _ Hsent) as [Hu Hreq].
  pose proof (handler_exec (Send (Some A) B) _ _ _ Hsent) as Hexec.
  assert (user_exists db1 B) as Hu1.
  { unfold user_exists. by rewrite <- Hexec, exec_users. }
  split; [by eapply Hrej; eauto|].
  assert (unique_pairs db1) as Huniq1 by (rewrite <- Hexec; by apply exec_unique_pairs).
  pose proof (unique_pairs_rows db1 A B Huniq1) as Hle.
  rewrite edgeStatus_rows in Hreq.
  destruct (edgeRows db1 A B); [done|]. simpl in *. lia.
Qed.

Lemma send_rejects_existing_witness :
  send (Some 1) 2 db_sent = (db_sent, Rejected AlreadyExists) ∧
  length (edgeRows db_sent 1 2) = 1.
Proof.
  apply (proj2 send_rejects_existing db0 1 2 db_sent).
  - apply NoDup_nil_2.
  - reflexivity.
Defined.

(** ** Answering *)

(** C4 — the answer guard.  Unless some row [(requesterId, callerId)] has
    status exactly [requested], both [accept] and [decline] are rejected with
    the guard's [BAD_REQUEST] (NoPendingRequest) and the store is the one
    they were called on; when such a row exists both resolve. *)
Theorem answer_requires_pending db c r :
  (¬ has_pending db r c →
     accept (Some c) r db = (db, Rejected BadRequest) ∧
     decline (Some c) r db = (db, Rejected BadRequest)) ∧
  (has_pending db r c →
     (accept (Some c) r db).2 = Resolved () ∧
     (decline (Some c) r db).2 = Resolved ()).
Proof.
  rewrite accept_cases, decline_cases. split; intros Hp.
  - by rewrite !decide_False by done.
  - rewrite !decide_True by done. cbv zeta.
    by destruct (edgeStatus (set_edge r c accepted db) c r).
Qed.

Lemma answer_requires_pending_witness :
  (accept (Some 1) 2 db_sent = (db_sent, Rejected BadRequest) ∧
   decline (Some 1) 2 db_sent = (db_sent, Rejected BadRequest)) ∧
  ((accept (Some 2) 1 db_sent).2 = Resolved () ∧
   (decline (Some 2) 1 db_sent).2 = Resolved ()).
Proof.
  split.
  - apply (proj1 (answer_requires_pending db_sent 1 2)).
    intros Hp. apply Exists_exists in Hp as (row & Hin & Hu & _).
    vm_compute in Hin. apply list_elem_of_singleton in Hin. by subst row.
  - apply (proj2 (answer_requires_pending db_sent 2 1)).
    vm_compute. apply Exists_cons_hd. done.
Defined.

(** ** Failures *)

(** C9 — all-or-nothing.  Whenever send, accept or decline is rejected, with
    whatever error, the store it leaves is exactly the store it was called
    on. *)
Theorem rejected_call_leaves_store call db db' e :
  handler call db = (db', Rejected e) → db' = db.
Proof.
  destruct call as [[c|] t|[c|] r|[c|] r]; cbn [handler];
    try (intros [= <- _]; done).
  - rewrite send_cases. case_decide; [|by intros [= <- _]].
    destruct (edgeStatus db c t) as [[]|]; by intros [= <- _] || intros [=].
  - rewrite accept_cases. case_decide; [|by intros [= <- _]]. cbv zeta.
    by destruct (edgeStatus _ c r).
  - rewrite decline_cases. case_decide; [done|by intros [= <- _]].
Qed.

Lemma rejected_call_leaves_store_witness :
  (handler (Send (Some 1) 2) db_friends).1 = db_friends.
Proof.
  apply (rejected_call_leaves_store (Send (Some 1) 2) db_friends _
           AlreadyExists).
  reflexivity.
Defined.

(** ** Self-edges *)

(** C5 as stated does not hold: nothing rejects a send whose target is the
    caller, and it stores a row from user 1 to user 1. *)
Lemma self_send_stores_self_edge :
  fresh db0 ∧
  (send (Some 1) 1 db0).2 = Resolved () ∧
  ¬ irreflexive (run [Send (Some 1) 1] db0).
Proof.
  split; [done|]. split; [done|].
  intros Hirr.
  apply (Hirr {| id := 1; userId := 1; friendUserId := 1; status := requested |});
    [|done].
  vm_compute. left.
Qed.

(** C5, amended — I1 along histories without self-sends.  From a store with
    no self-edge (a fresh one in particular), every history of send, accept
    and decline calls in which no send targets its own caller leaves every
    row with [userId ≠ friendUserId]; accept and decline need no such
    restriction. *)
Theorem irreflexive_without_self_send db cs :
  irreflexive db → Forall (λ call, ¬ self_send call) cs →
  irreflexive (run cs db).
Proof.
  intros Hirr. induction cs as [|call cs IH] using rev_ind; [done|].
  intros [Hcs Hcall]%Forall_app. rewrite Forall_singleton in Hcall.
  rewrite run_snoc. apply exec_irreflexive; [done|by apply IH].
Qed.

Lemma irreflexive_without_self_send_witness :
  irreflexive
    (run [Send (Some 1) 2; Decline (Some 2) 1; Send (Some 1) 2;
          Accept (Some 2) 1; Accept (Some 3) 3] db0).
Proof.
  apply irreflexive_without_self_send.
  - intros row Hin. vm_compute in Hin. by apply elem_of_nil in Hin.
  - repeat (apply Forall_cons; split; [simpl; try tauto; lia|]).
    apply Forall_nil_2.
Defined.

(** ** Frames *)

Lemma send_edgeRows_other c t db x y :
  (x, y) ≠ (c, t) →
  edgeRows (exec (Send (Some c) t) db) x y = edgeRows db x y.
Proof.
  intros Hne. unfold exec; cbn [handler]. rewrite send_cases.
  case_decide; [|done].
  destruct (edgeStatus db c t) as [[]|]; cbn [fst];
    rewrite ?edgeRows_set_edge, ?edgeRows_add_edge; try done;
    rewrite decide_False; rewrite ?app_nil_r; try done;
    intros [-> ->]; done.
Qed.

Lemma decline_edgeRows_other c r db x y :
  (x, y) ≠ (r, c) →
  edgeRows (exec (Decline (Some c) r) db) x y = edgeRows db x y.
Proof.
  intros Hne. unfold exec; cbn [handler]. rewrite decline_cases.
  case_decide; [|done]. cbn [fst].
  rewrite edgeRows_set_edge, decide_False; [done|]. by intros [-> ->].
Qed.

(** C6 as stated does not hold when the target is the caller: the mirror of
    [(1,1)] is [(1,1)] itself, which the send creates and the decline
    keeps. *)
Lemma self_send_writes_mirror :
  edgeRows db0 1 1 = [] ∧
  edgeRows (exec (Send (Some 1) 1) db0) 1 1 ≠ edgeRows db0 1 1 ∧
  edgeRows (run [Send (Some 1) 1; Decline (Some 1) 1] db0) 1 1 ≠ [].
Proof. split; [done|]. split; vm_compute; discriminate. Qed.

(** C6, amended — send and decline are one-sided (P4).  [send(c,t)] leaves
    the rows of every pair other than [(c,t)] as they were, and
    [decline(c,r)] those of every pair other than [(r,c)]; so when the two
    users differ the mirror edge is untouched by either call, and after
    [send(A,B)] then [decline] by B no row [(B,A)] exists unless one existed
    before. *)
Theorem mirror_untouched db c t :
  c ≠ t →
  (∀ x y, (x, y) ≠ (c, t) →
     edgeRows (exec (Send (Some c) t) db) x y = edgeRows db x y) ∧
  (∀ x y, (x, y) ≠ (t, c) →
     edgeRows (exec (Decline (Some c) t) db) x y = edgeRows db x y) ∧
  edgeRows (exec (Send (Some c) t) db) t c = edgeRows db t c ∧
  edgeRows (exec (Decline (Some c) t) db) c t = edgeRows db c t ∧
  (edgeRows db t c = [] →
     edgeRows (run [Send (Some c) t; Decline (Some t) c] db) t c = []).
Proof.
  intros Hne.
  assert ((t, c) ≠ (c, t)) as Htc by (intros [= -> _]; done).
  assert ((c, t) ≠ (t, c)) as Hct by (intros [= -> _]; done).
  split_and!.
  - intros x y. apply send_edgeRows_other.
  - intros x y. apply decline_edgeRows_other.
  - by apply send_edgeRows_other.
  - by apply decline_edgeRows_other.
  - intros Hnone. unfold run; simpl. unfold flip.
    by rewrite decline_edgeRows_other, send_edgeRows_other.
Qed.

Lemma mirror_untouched_witness :
  edgeRows (run [Send (Some 1) 2; Decline (Some 2) 1] db0) 2 1 = [].
Proof.
  apply (mirror_untouched db0 1 2); [lia|reflexivity].
Defined.

(** ** Identity and keys of the rows *)

Lemma edgeRows_edgeStatus db x y :
  edgeRows db x y ≠ [] → is_Some (edgeStatus db x y).
Proof.
  rewrite edgeStatus_rows. destruct (edgeRows db x y); [done|]. by eexists.
Qed.

Lemma exec_keys call db :
  ∃ new, key_of <$> friendships (exec call db) =
         (key_of <$> friendships db) ++ new.
Proof.
  unfold exec.
  destruct call as [[c|] t|[c|] r|[c|] r]; cbn [handler];
    try (exists []; by rewrite app_nil_r).
  - rewrite send_cases. case_decide; [|exists []; by rewrite app_nil_r].
    destruct (edgeStatus db c t) as [[]|]; cbn [fst];
      rewrite ?keys_set_edge, ?keys_add_edge;
      try (exists []; by rewrite app_nil_r).
    by eexists.
  - rewrite accept_cases. case_decide; [|exists []; by rewrite app_nil_r].
    cbv zeta. destruct (edgeStatus _ c r); cbn [fst];
      rewrite ?keys_add_edge, !keys_set_edge;
      [exists []; by rewrite app_nil_r|by eexists].
  - rewrite decline_cases. case_decide; cbn [fst];
      rewrite ?keys_set_edge; exists []; by rewrite app_nil_r.
Qed.

(** C7 — one row per ordered pair.  Every call of send, accept or decline,
    resolved or rejected, takes a store with at most one row per pair
    [(userId, friendUserId)] to such a store.  A send over an existing edge
    [(callerId, targetId)] and an accept whose mirror
    [(callerId, requesterId)] exists add no row: the keys of the stored rows
    are the same before and after. *)
Theorem calls_keep_pairs_unique :
  (∀ call db, unique_pairs db → unique_pairs (exec call db)) ∧
  (∀ db c t, edgeRows db c t ≠ [] →
     key_of <$> friendships (exec (Send (Some c) t) db) =
     key_of <$> friendships db) ∧
  (∀ db c r, edgeRows db c r ≠ [] →
     key_of <$> friendships (exec (Accept (Some c) r) db) =
     key_of <$> friendships db).
Proof.
  split_and!.
  - apply exec_unique_pairs.
  - intros db c t [s Hs]%edgeRows_edgeStatus.
    unfold exec; cbn [handler]. rewrite send_cases, Hs.
    case_decide; [|done]. destruct s; try done. apply keys_set_edge.
  - intros db c r Hrows. unfold exec; cbn [handler]. rewrite accept_cases.
    case_decide; [|done]. cbv zeta.
    assert (is_Some (edgeStatus (set_edge r c accepted db) c r)) as [s ->].
    { apply edgeRows_edgeStatus. rewrite edgeRows_set_edge.
      case_decide; [|done]. by destruct (edgeRows db c r). }
    cbn [fst]. by rewrite !keys_set_edge.
Qed.

Lemma calls_keep_pairs_unique_witness :
  unique_pairs (exec (Accept (Some 2) 1) db_crossed) ∧
  key_of <$> friendships (exec (Accept (Some 2) 1) db_crossed) =
  key_of <$> friendships db_crossed.
Proof.
  split.
  - apply (proj1 calls_keep_pairs_unique).
    apply (bool_decide_unpack _). by vm_compute.
  - apply (proj2 (proj2 calls_keep_pairs_unique)).
    vm_compute. discriminate.
Defined.

(** C10 — rows are kept.  Along every history of send, accept and decline
    calls the rows present at the start stay where they are with their [id],
    [userId] and [friendUserId]; only [status] may differ, no row is deleted,
    and new rows come after them. *)
Theorem calls_keep_rows cs db :
  key_of <$> friendships db `prefix_of` key_of <$> friendships (run cs db) ∧
  (∀ i row, friendships db !! i = Some row →
     ∃ row', friendships (run cs db) !! i = Some row' ∧
             id row' = id row ∧ userId row' = userId row ∧
             friendUserId row' = friendUserId row).
Proof.
  assert (key_of <$> friendships db `prefix_of`
          key_of <$> friendships (run cs db)) as Hpre.
  { induction cs as [|call cs IH] using rev_ind; [done|].
    rewrite run_snoc. etrans; [exact IH|].
    destruct (exec_keys call (run cs db)) as [new ->].
    by apply prefix_app_r. }
  split; [done|].
  intros i row Hi. destruct Hpre as [new Hnew].
  assert ((key_of <$> friendships (run cs db)) !! i = Some (key_of row)) as Hk.
  { rewrite Hnew. apply lookup_app_l_Some. by rewrite list_lookup_fmap, Hi. }
  rewrite list_lookup_fmap in Hk.
  destruct (friendships (run cs db) !! i) as [row'|]; [|done].
  exists row'. simpl in Hk. unfold key_of in Hk. by simplify_eq.
Qed.

Lemma calls_keep_rows_witness :
  ∃ row', friendships db_friends !! 0 = Some row' ∧
          id row' = 1 ∧ userId row' = 1 ∧ friendUserId row' = 2.
Proof.
  apply (proj2 (calls_keep_rows [Accept (Some 2) 1] db_sent) 0
           {| id := 1; userId := 1; friendUserId := 2; status := requested |}).
  reflexivity.
Defined.

(** ** The mutual-friend count *)

Section mutual.
Implicit Types (rows : list Friendship) (u c t : nat).

Lemma filter_innerJoin c t (l1 l2 : list Friendship) :
  filter (mutual_where c t) (innerJoin l1 l2 same_friend) =
  innerJoin (filter (outbound c) l1) (filter (outbound t) l2) same_friend.
Proof.
  unfold innerJoin.
  induction l1 as [|a l1 IH]; [done|].
  rewrite bind_cons, filter_app, IH, filter_cons. clear IH.
  assert (filter (mutual_where c t)
            (l2 ≫= λ b, if decide (same_friend a b) then [(a, b)] else []) =
          if decide (outbound c a)
          then filter (outbound t) l2 ≫=
                 λ b, if decide (same_friend a b) then [(a, b)] else []
          else []) as ->.
  { induction l2 as [|b l2 IH]; [by case_decide|].
    rewrite bind_cons, filter_app, IH, filter_cons. clear IH.
    unfold mutual_where, outbound.
    repeat case_decide; rewrite ?bind_cons, ?filter_cons, ?filter_nil;
      repeat case_decide; simpl in *; try done; tauto. }
  case_decide; [by rewrite bind_cons|done].
Qed.

Lemma length_innerJoin_NoDup (l1 l2 : list Friendship) :
  NoDup (friendUserId <$> l2) →
  length (innerJoin l1 l2 same_friend) =
  length (filter (λ x, x ∈ friendUserId <$> l2) (friendUserId <$> l1)).
Proof.
  intros Hnd. unfold innerJoin.
  induction l1 as [|a l1 IH]; [done|].
  rewrite bind_cons, length_app, IH, fmap_cons, filter_cons. clear IH.
  assert (length (l2 ≫= λ b, if decide (same_friend a b) then [(a, b)] else [])
          = if decide (friendUserId a ∈ friendUserId <$> l2) then 1 else 0)
    as ->; [|by case_decide].
  induction l2 as [|b l2 IH].
  { rewrite decide_False; [done|]. rewrite fmap_nil. apply not_elem_of_nil. }
  rewrite fmap_cons, NoDup_cons in Hnd. destruct Hnd as [Hb Hnd].
  rewrite bind_cons, length_app, IH by done. clear IH.
  unfold same_friend. rewrite fmap_cons.
  repeat case_decide; simpl; try done;
    rewrite elem_of_cons in *; try tauto; congruence.
Qed.

Lemma size_intersection_NoDup (n1 n2 : list nat) :
  NoDup n1 →
  size (list_to_set n1 ∩ list_to_set n2 : gset nat) =
  length (filter (λ x, x ∈ n2) n1).
Proof.
  intros Hnd. rewrite <- (size_list_to_set (C:=gset nat))
    by by apply NoDup_filter.
  f_equal. apply set_eq. intros x.
  rewrite elem_of_intersection, !elem_of_list_to_set, list_elem_of_filter.
  tauto.
Qed.

Lemma outbound_NoDup db u :
  unique_pairs db →
  NoDup (friendUserId <$> filter (outbound u) (friendships db)).
Proof.
  unfold unique_pairs.
  induction (friendships db) as [|r rows IH]; [intros; apply NoDup_nil_2|].
  rewrite fmap_cons, NoDup_cons, filter_cons. intros [Hr Hnd].
  case_decide as Ho; [|by apply IH].
  rewrite fmap_cons. apply NoDup_cons. split; [|by apply IH].
  intros (r' & Hf & [Ho' Hin]%list_elem_of_filter)%list_elem_of_fmap.
  apply Hr, list_elem_of_fmap. exists r'. split; [|done].
  unfold pair_of. destruct Ho as [-> _], Ho' as [-> _]. by rewrite Hf.
Qed.

Lemma mutualFriendCountQuery_size db c t :
  unique_pairs db →
  mutualFriendCountQuery (friendships db) c t =
  size (accepted_out db c ∩ accepted_out db t).
Proof.
  intros Hu. unfold mutualFriendCountQuery, accepted_out.
  rewrite filter_innerJoin, length_innerJoin_NoDup by by apply outbound_NoDup.
  symmetry. apply size_intersection_NoDup. by apply outbound_NoDup.
Qed.
End mutual.

(** C8 — mutual count (P5).  On a store with one row per ordered pair, the
    count the mutual-friend query returns for caller and target is the number
    of users X with both [(callerId, X)] and [(targetId, X)] accepted, i.e.
    the size of the intersection of their accepted-outbound sets; and when
    [getById] resolves, its [mutualFriendCount] is that number and the store
    is unchanged. *)
Theorem mutual_count_is_intersection db caller target :
  unique_pairs db →
  mutualFriendCountQuery (friendships db) caller target =
    size (accepted_out db caller ∩ accepted_out db target) ∧
  (∀ db' info, getById (Some caller) target db = (db', Resolved info) →
     db' = db ∧
     FriendInfo.mutualFriendCount info =
       size (accepted_out db caller ∩ accepted_out db target)).
Proof.
  intros Hu. split; [by apply mutualFriendCountQuery_size|].
  intros db' info. rewrite <- mutualFriendCountQuery_size by done.
  unfold getById, await, executeTakeFirstOrThrow. simpl.
  destruct (head (friendInfoQuery db caller target)); simpl; [|done].
  by intros [= <- <-].
Qed.

Lemma mutual_count_is_intersection_witness :
  mutualFriendCountQuery (friendships db_shared) 2 3 = 2 ∧
  size (accepted_out db_shared 2 ∩ accepted_out db_shared 3) = 2 ∧
  ∃ info, getById (Some 2) 3 db_mutual = (db_mutual, Resolved info) ∧
          FriendInfo.mutualFriendCount info = 2 ∧
          size (accepted_out db_mutual 2 ∩ accepted_out db_mutual 3) = 2.
Proof.
  assert (unique_pairs db_shared) as Hshared
    by (apply (bool_decide_unpack _); by vm_compute).
  assert (unique_pairs db_mutual) as Hmutual
    by (apply (bool_decide_unpack _); by vm_compute).
  split; [reflexivity|].
  split.
  - by rewrite <- (proj1 (mutual_count_is_intersection db_shared 2 3 Hshared)).
  - eexists. split; [reflexivity|]. split; [reflexivity|].
    by rewrite <- (proj1 (mutual_count_is_intersection db_mutual 2 3 Hmutual)).
Defined.

(** * Further properties of the routers *)

(** ** Pending rows *)

Lemma has_pending_rows db x y :
  has_pending db x y ↔ Exists (λ r, status r = requested) (edgeRows db x y).
Proof.
  unfold has_pending, edgeRows, pending, edge. rewrite !Exists_exists. split.
  - intros (r & Hin & Hu & Hf & Hs). exists r. split; [|done].
    by apply list_elem_of_filter.
  - intros (r & [[Hu Hf] Hin]%list_elem_of_filter & Hs). by exists r.
Qed.

Lemma set_edge_no_pending u f s db :
  s ≠ requested → ¬ has_pending (set_edge u f s db) u f.
Proof.
  intros Hs. rewrite has_pending_rows, edgeRows_set_edge, decide_True by done.
  rewrite Exists_fmap, Exists_exists. by intros (r & _ & Hr).
Qed.

Lemma exec_accept_pending c r db :
  has_pending db r c →
  exec (Accept (Some c) r) db =
  match edgeStatus (set_edge r c accepted db) c r with
  | Some _ => set_edge c r accepted (set_edge r c accepted db)
  | None => add_edge c r accepted (set_edge r c accepted db)
  end.
Proof.
  intros Hp. unfold exec; cbn [handler].
  rewrite accept_cases, decide_True by done. cbv zeta.
  by destruct (edgeStatus _ c r).
Qed.

Lemma exec_decline_pending c r db :
  has_pending db r c → exec (Decline (Some c) r) db = set_edge r c declined db.
Proof.
  intros Hp. unfold exec; cbn [handler].
  by rewrite decline_cases, decide_True by done.
Qed.

(** ** Sending, continued *)

(** X1 — unknown target.  [send] is rejected with the bare [BAD_REQUEST] of
    [canSendFriendshipRequest] exactly when no row of [users] has the target
    id; the check comes first, so an existing edge to a missing user does not
    change the answer, and the store is left as it was. *)
Theorem send_unknown_target c t db :
  send (Some c) t db = (db, Rejected BadRequest) ↔ ¬ user_exists db t.
Proof.
  rewrite send_cases. split.
  - intros Hsend Hu. rewrite decide_True in Hsend by done.
    destruct (edgeStatus db c t) as [[]|]; by simplify_eq.
  - intros Hu. by rewrite decide_False.
Qed.

(** X2 — first request.  When the target is a user and no row of the pair
    [(callerId, targetId)] exists, [send] resolves and the table is the old
    one followed by exactly one new row, from the caller to the target with
    status [requested]. *)
Theorem send_first_inserts c t db :
  user_exists db t → edgeRows db c t = [] →
  ∃ db' row,
    send (Some c) t db = (db', Resolved ()) ∧
    friendships db' = friendships db ++ [row] ∧
    userId row = c ∧ friendUserId row = t ∧ status row = requested ∧
    users db' = users db.
Proof.
  intros Hu Hnone%edgeStatus_None.
  rewrite send_cases, decide_True, Hnone by done.
  by eexists _, _.
Qed.

Lemma send_first_inserts_witness :
  ∃ db' row,
    send (Some 3) 4 db_sent = (db', Resolved ()) ∧
    friendships db' = friendships db_sent ++ [row] ∧
    userId row = 3 ∧ friendUserId row = 4 ∧ status row = requested ∧
    users db' = users db_sent.
Proof.
  apply (send_first_inserts 3 4 db_sent); [|reflexivity].
  vm_compute. do 3 apply Exists_cons_tl. by apply Exists_cons_hd.
Defined.

(** ** Declining *)

(** X3 — effect of decline.  With a pending row from the requester to the
    caller, [decline] resolves; afterwards every row of that pair has status
    [declined], the edge reads [declined], and the table has the same rows
    with the same keys. *)
Theorem decline_sets_declined c r db :
  has_pending db r c →
  ∃ db', decline (Some c) r db = (db', Resolved ()) ∧
         edgeStatus db' r c = Some declined ∧
         Forall (λ row, status row = declined) (edgeRows db' r c) ∧
         key_of <$> friendships db' = key_of <$> friendships db.
Proof.
  intros Hp. rewrite decline_cases, decide_True by done.
  exists (set_edge r c declined db). split; [done|].
  apply has_pending_is_Some in Hp as [s Hs].
  rewrite edgeStatus_set_edge, edgeRows_set_edge, !decide_True, Hs by done.
  split; [done|]. split; [|apply keys_set_edge].
  apply Forall_fmap, Forall_true. done.
Qed.

Lemma decline_sets_declined_witness :
  ∃ db', decline (Some 2) 1 db_sent = (db', Resolved ()) ∧
         edgeStatus db' 1 2 = Some declined ∧
         Forall (λ row, status row = declined) (edgeRows db' 1 2) ∧
         key_of <$> friendships db' = key_of <$> friendships db_sent.
Proof.
  apply (decline_sets_declined 2 1 db_sent).
  vm_compute. by apply Exists_cons_hd.
Defined.

(** X4 — a declined request cannot be answered again.  Right after a
    resolved [decline], a second [decline] and an [accept] by the same caller
    for the same requester are both rejected by the guard and leave the
    store alone: only a new [send] by the requester reopens the edge. *)
Theorem declined_cannot_be_answered c r db db1 :
  decline (Some c) r db = (db1, Resolved ()) →
  accept (Some c) r db1 = (db1, Rejected BadRequest) ∧
  decline (Some c) r db1 = (db1, Rejected BadRequest).
Proof.
  rewrite decline_cases. case_decide as Hp; [|done]. intros [= <-].
  rewrite accept_cases, decline_cases.
  by rewrite !decide_False by by apply set_edge_no_pending.
Qed.

Lemma declined_cannot_be_answered_witness :
  accept (Some 2) 1 (exec (Decline (Some 2) 1) db_sent) =
    (exec (Decline (Some 2) 1) db_sent, Rejected BadRequest) ∧
  decline (Some 2) 1 (exec (Decline (Some 2) 1) db_sent) =
    (exec (Decline (Some 2) 1) db_sent, Rejected BadRequest).
Proof.
  apply (declined_cannot_be_answered 2 1 db_sent). reflexivity.
Defined.

(** X5 — only the addressee answers.  After a resolved [send(A,B)] between
    two different users, the sender A can neither accept nor decline that
    request themselves: unless B had a pending request to A already, both
    calls by A are rejected by the guard. *)
Theorem sender_cannot_answer A B db db1 :
  A ≠ B → ¬ has_pending db B A →
  send (Some A) B db = (db1, Resolved ()) →
  accept (Some A) B db1 = (db1, Rejected BadRequest) ∧
  decline (Some A) B db1 = (db1, Rejected BadRequest).
Proof.
  intros Hne Hnp Hsent.
  assert (¬ has_pending db1 B A) as Hnp1.
  { rewrite has_pending_rows in *.
    rewrite <- (handler_exec (Send (Some A) B) _ _ _ Hsent).
    rewrite send_edgeRows_other; [done|]. intros [= -> _]. done. }
  rewrite accept_cases, decline_cases. by rewrite !decide_False by done.
Qed.

Lemma sender_cannot_answer_witness :
  accept (Some 1) 2 db_sent = (db_sent, Rejected BadRequest) ∧
  decline (Some 1) 2 db_sent = (db_sent, Rejected BadRequest).
Proof.
  apply (sender_cannot_answer 1 2 db0 db_sent); [lia| |reflexivity].
  intros Hp. apply Exists_exists in Hp as (row & Hin & _).
  vm_compute in Hin. by apply elem_of_nil in Hin.
Defined.

(** ** The life of an edge *)

Lemma exec_accepted_stays call db x y :
  unique_pairs db → edgeStatus db x y = Some accepted →
  edgeStatus (exec call db) x y = Some accepted.
Proof.
  intros Hu Hacc.
  destruct call as [[c|] t|[c|] r|[c|] r]; try done.
  - rewrite send_edgeStatus. case_decide as Hxy; [|done].
    destruct Hxy as (_ & -> & ->). by rewrite Hacc.
  - rewrite accept_edgeStatus. by case_decide.
  - rewrite decline_edgeStatus. case_decide as Hxy; [|done].
    destruct Hxy as (Hp & -> & ->).
    apply has_pending_status in Hp; [|done]. congruence.
Qed.

(** X6 — friendship is permanent.  On a store with one row per ordered
    pair, an edge that reads [accepted] reads [accepted] after any sequence
    of send, accept and decline calls by anyone: no call of the router
    downgrades or removes an accepted edge. *)
Theorem accepted_is_final cs db x y :
  unique_pairs db → edgeStatus db x y = Some accepted →
  edgeStatus (run cs db) x y = Some accepted.
Proof.
  intros Hu Hacc. induction cs as [|call cs IH] using rev_ind; [done|].
  rewrite run_snoc. apply exec_accepted_stays; [|done].
  by apply run_unique_pairs.
Qed.

Lemma accepted_is_final_witness :
  edgeStatus
    (run [Decline (Some 2) 1; Send (Some 1) 2; Decline (Some 1) 2;
          Send (Some 2) 1; Accept (Some 1) 2] db_friends) 1 2 = Some accepted.
Proof.
  apply (accepted_is_final _ db_friends 1 2); [|reflexivity].
  apply (bool_decide_unpack _). by vm_compute.
Defined.

(** X7 — the transitions of one call.  On a store with one row per ordered
    pair, a single call leaves the point lookup of every pair as it was or
    moves it along one of: none to requested (send), none to accepted (the
    mirror written by accept), requested to accepted, requested to declined,
    declined to requested (re-send), declined to accepted (mirror).  In
    particular an edge never disappears and never leaves [accepted]. *)
Theorem one_call_transitions call db x y :
  unique_pairs db →
  let s := edgeStatus db x y in
  let s' := edgeStatus (exec call db) x y in
  s' = s ∨
  (s = None ∧ (s' = Some requested ∨ s' = Some accepted)) ∨
  (s = Some requested ∧ (s' = Some accepted ∨ s' = Some declined)) ∨
  (s = Some declined ∧ (s' = Some requested ∨ s' = Some accepted)).
Proof.
  intros Hu s s'. subst s s'.
  destruct call as [[c|] t|[c|] r|[c|] r]; try (by left).
  - rewrite send_edgeStatus. case_decide as Hxy; [|by left].
    destruct Hxy as (_ & -> & ->).
    destruct (edgeStatus db c t) as [[]|]; tauto.
  - rewrite accept_edgeStatus. case_decide as Hxy; [|by left].
    destruct (edgeStatus db x y) as [[]|]; tauto.
  - rewrite decline_edgeStatus. case_decide as Hxy; [|by left].
    destruct Hxy as (Hp & -> & ->).
    apply has_pending_status in Hp as ->; [|done]. tauto.
Qed.

Lemma one_call_transitions_witness :
  let s := edgeStatus db_crossed 2 1 in
  let s' := edgeStatus (exec (Accept (Some 2) 1) db_crossed) 2 1 in
  s' = s ∨
  (s = None ∧ (s' = Some requested ∨ s' = Some accepted)) ∨
  (s = Some requested ∧ (s' = Some accepted ∨ s' = Some declined)) ∨
  (s = Some declined ∧ (s' = Some requested ∨ s' = Some accepted)).
Proof.
  apply (one_call_transitions (Accept (Some 2) 1) db_crossed 2 1).
  apply (bool_decide_unpack _). by vm_compute.
Defined.

Lemma accepted_rows_no_pending db x y :
  Forall (λ row, status row = accepted) (edgeRows db x y) →
  ¬ has_pending db x y.
Proof.
  rewrite has_pending_rows, Forall_forall, Exists_exists.
  intros Hall (row & Hin & Hs). specialize (Hall row Hin). congruence.
Qed.

Lemma accept_rows_accepted c r db :
  has_pending db r c →
  Forall (λ row, status row = accepted)
         (edgeRows (exec (Accept (Some c) r) db) r c) ∧
  Forall (λ row, status row = accepted)
         (edgeRows (exec (Accept (Some c) r) db) c r).
Proof.
  intros Hp. rewrite exec_accept_pending by done.
  destruct (edgeStatus (set_edge r c accepted db) c r) as [s|] eqn:Hm.
  - rewrite !edgeRows_set_edge.
    split; repeat case_decide; try tauto;
      apply Forall_fmap, Forall_true; done.
  - rewrite edgeStatus_None in Hm.
    rewrite !edgeRows_add_edge, Hm. rewrite edgeRows_set_edge in *.
    rewrite decide_True by done. split; apply Forall_app; split;
      repeat case_decide;
      first [ by apply Forall_nil
            | by apply Forall_singleton
            | apply Forall_fmap, Forall_true; done ].
Qed.

(** X8 — nothing left to do between friends.  After a resolved [accept] of
    r's request by c, every further send, accept or decline between the two
    users, in either direction, is rejected and leaves the store as it
    is. *)
Theorem friends_calls_rejected c r db db1 call :
  accept (Some c) r db = (db1, Resolved ()) →
  call ∈ [Send (Some c) r; Send (Some r) c; Accept (Some c) r;
          Accept (Some r) c; Decline (Some c) r; Decline (Some r) c] →
  ∃ e, handler call db1 = (db1, Rejected e).
Proof.
  intros Hacc Hcall.
  assert (has_pending db r c) as Hp.
  { rewrite accept_cases in Hacc. by case_decide. }
  pose proof (handler_exec (Accept (Some c) r) _ _ _ Hacc) as Hexec.
  pose proof (accept_rows_accepted c r db Hp) as [Hrc Hcr].
  pose proof (accept_edgeStatus c r db r c) as Hsrc.
  pose proof (accept_edgeStatus c r db c r) as Hscr.
  rewrite decide_True in Hsrc by tauto. rewrite decide_True in Hscr by tauto.
  rewrite Hexec in *. clear Hacc Hexec.
  apply accepted_rows_no_pending in Hrc, Hcr.
  repeat (apply elem_of_cons in Hcall as [->|Hcall]); cbn [handler];
    try (by apply elem_of_nil in Hcall);
    rewrite ?send_cases, ?accept_cases, ?decline_cases, ?Hsrc, ?Hscr;
    repeat case_decide; try tauto; by eexists.
Qed.

Lemma friends_calls_rejected_witness :
  ∃ e, handler (Decline (Some 1) 2) db_friends = (db_friends, Rejected e).
Proof.
  apply (friends_calls_rejected 2 1 db_sent db_friends (Decline (Some 1) 2)).
  - reflexivity.
  - rewrite !elem_of_cons. do 5 right. by left.
Defined.

(** ** The friend-info read, continued *)

Lemma elem_of_innerJoin {A B} (l1 : list A) (l2 : list B) (on : A → B → Prop)
    `{∀ a b, Decision (on a b)} a b :
  (a, b) ∈ innerJoin l1 l2 on ↔ a ∈ l1 ∧ b ∈ l2 ∧ on a b.
Proof.
  unfold innerJoin. rewrite list_elem_of_bind. split.
  - intros (a' & (b' & Hin & Hb)%list_elem_of_bind & Ha).
    case_decide; [|by apply elem_of_nil in Hin].
    apply list_elem_of_singleton in Hin. by simplify_eq.
  - intros (Ha & Hb & Hon). exists a. split; [|done].
    apply list_elem_of_bind. exists b. split; [|done].
    rewrite decide_True by done. apply list_elem_of_singleton. done.
Qed.

Lemma filter_accepted_user u (rows : list Friendship) :
  filter (λ r, userId r = u) (filter (λ r, status r = accepted) rows) =
  filter (outbound u) rows.
Proof. rewrite list_filter_filter. by apply list_filter_iff. Qed.

Lemma elem_of_userTotalFriendCount (rows : list Friendship) u n :
  (u, n) ∈ userTotalFriendCount rows ↔
  n = length (filter (outbound u) rows) ∧ Exists (outbound u) rows.
Proof.
  unfold userTotalFriendCount. cbv zeta.
  rewrite list_elem_of_fmap, Exists_exists. split.
  - intros (u' & [= -> ->] & Hin). rewrite filter_accepted_user.
    split; [done|].
    apply elem_of_remove_dups, list_elem_of_fmap in Hin as (r & -> & Hr).
    apply list_elem_of_filter in Hr as [Hs Hr]. by exists r.
  - intros (-> & r & Hr & Hu & Hs). exists u.
    rewrite filter_accepted_user. split; [done|].
    apply elem_of_remove_dups, list_elem_of_fmap. exists r. split; [done|].
    by apply list_elem_of_filter.
Qed.

Lemma elem_of_friendInfoQuery db c t u f tc :
  (u, f, tc) ∈ friendInfoQuery db c t ↔
  u ∈ users db ∧ User.id u = t ∧
  f ∈ edgeRows db c t ∧ status f = accepted ∧
  tc = (t, length (filter (outbound t) (friendships db))) ∧
  Exists (outbound t) (friendships db).
Proof.
  unfold friendInfoQuery.
  rewrite list_elem_of_filter, !elem_of_innerJoin, edgeRows_elem.
  unfold friend_is, count_of, edge. simpl. destruct tc as [u' n].
  rewrite elem_of_userTotalFriendCount. simpl. split.
  - intros ((Hcf & Hs) & (Hu & Hf & Hid) & (-> & Hex) & Hu').
    destruct Hcf as [Hc Ht]. assert (u' = t) as -> by congruence.
    repeat split; done || congruence.
  - intros (Hu & Hid & (Hf & Hc & Ht) & Hs & [= -> ->] & Hex).
    rewrite Hid. repeat split; done || congruence.
Qed.

Lemma getById_cases c t db :
  getById (Some c) t db =
  match head (friendInfoQuery db c t) with
  | Some row =>
      (db, Resolved
             {| FriendInfo.id := User.id row.1.1;
                FriendInfo.fullName := User.fullName row.1.1;
                FriendInfo.phoneNumber := User.phoneNumber row.1.1;
                FriendInfo.totalFriendCount := row.2.2;
                FriendInfo.mutualFriendCount :=
                  mutualFriendCountQuery (friendships db) c t |})
  | None => (db, Rejected NotFound)
  end.
Proof.
  unfold getById, await, executeTakeFirstOrThrow. simpl.
  by destruct (head (friendInfoQuery db c t)).
Qed.




Lemma getById_resolved c t db db' info :
  getById (Some c) t db = (db', Resolved info) →
  ∃ u, u ∈ users db ∧ User.id u = t ∧
       FriendInfo.id info = t ∧
       FriendInfo.fullName info = User.fullName u ∧
       FriendInfo.phoneNumber info = User.phoneNumber u ∧
       FriendInfo.totalFriendCount info =
         length (filter (outbound t) (friendships db)) ∧
       FriendInfo.mutualFriendCount info =
         mutualFriendCountQuery (friendships db) c t ∧
       Exists (outbound t) (friendships db).
Proof.
  rewrite getById_cases.
  destruct (head (friendInfoQuery db c t)) as [[[u f] tc]|] eqn:Hh; [|done].
  intros [= <- <-]. apply head_Some in Hh as [l Hq].
  assert ((u, f, tc) ∈ friendInfoQuery db c t) as Hin by (rewrite Hq; left).
  apply elem_of_friendInfoQuery in Hin as (Hu & Hid & _ & _ & -> & Hex).
  exists u. by repeat split.
Qed.

(** X10 — what the read returns.  When [getById] resolves, the record
    carries the target's id, the name and phone number of a [users] row with
    that id, and as [totalFriendCount] the number of accepted rows whose
    [userId] is the target, which is at least one. *)
Theorem getById_returns_target c t db db' info :
  getById (Some c) t db = (db', Resolved info) →
  FriendInfo.id info = t ∧
  (∃ u, u ∈ users db ∧ User.id u = t ∧
        FriendInfo.fullName info = User.fullName u ∧
        FriendInfo.phoneNumber info = User.phoneNumber u) ∧
  FriendInfo.totalFriendCount info =
    length (filter (outbound t) (friendships db)) ∧
  1 ≤ FriendInfo.totalFriendCount info.
Proof.
  intros (u & Hu & Hid & Hi & Hn & Hp & Ht & _ & Hex)%getById_resolved.
  split; [done|]. split; [by exists u|]. split; [done|].
  rewrite Ht. apply Exists_exists in Hex as (row & Hin & Ho).
  assert (row ∈ filter (outbound t) (friendships db)) as Hmem
    by by apply list_elem_of_filter.
  destruct (filter (outbound t) (friendships db));
    [by apply elem_of_nil in Hmem|simpl; lia].
Qed.

Lemma getById_returns_target_witness :
  ∃ info, (getById (Some 2) 3 db_mutual).2 = Resolved info ∧
          FriendInfo.id info = 3 ∧
          FriendInfo.totalFriendCount info =
            length (filter (outbound 3) (friendships db_mutual)) ∧
          1 ≤ FriendInfo.totalFriendCount info.
Proof.
  eexists. split; [reflexivity|].
  pose proof (getById_returns_target 2 3 db_mutual db_mutual _ eq_refl)
    as (Hid & _ & Ht & Hpos).
  by repeat split.
Defined.

Lemma size_accepted_out db u :
  unique_pairs db →
  size (accepted_out db u) = length (filter (outbound u) (friendships db)).
Proof.
  intros Hu. unfold accepted_out.
  rewrite size_list_to_set by by apply outbound_NoDup.
  apply length_fmap.
Qed.

(** X11 — mutual count: symmetric and bounded.  On a store with one row per
    ordered pair, the mutual-friend query gives the same number whichever of
    the two users asks, and never more than the number of accepted outbound
    rows of either; so the [mutualFriendCount] that [getById] returns is at
    most its [totalFriendCount]. *)
Theorem mutual_count_symmetric_bounded c t db :
  unique_pairs db →
  mutualFriendCountQuery (friendships db) c t =
    mutualFriendCountQuery (friendships db) t c ∧
  mutualFriendCountQuery (friendships db) c t ≤
    length (filter (outbound c) (friendships db)) ∧
  mutualFriendCountQuery (friendships db) c t ≤
    length (filter (outbound t) (friendships db)) ∧
  (∀ db' info, getById (Some c) t db = (db', Resolved info) →
     FriendInfo.mutualFriendCount info ≤ FriendInfo.totalFriendCount info).
Proof.
  intros Hu.
  assert (mutualFriendCountQuery (friendships db) c t ≤
          length (filter (outbound t) (friendships db))) as Hle.
  { rewrite mutualFriendCountQuery_size, <- size_accepted_out by done.
    apply subseteq_size, intersection_subseteq_r. }
  split_and!; [| |done|].
  - rewrite !mutualFriendCountQuery_size by done. f_equal.
    apply (comm_L (∩)).
  - rewrite mutualFriendCountQuery_size, <- size_accepted_out by done.
    apply subseteq_size, intersection_subseteq_l.
  - intros db' info (u & _ & _ & _ & _ & _ & -> & -> & _)%getById_resolved.
    done.
Qed.

Lemma mutual_count_symmetric_bounded_witness :
  mutualFriendCountQuery (friendships db_mutual) 2 3 =
    mutualFriendCountQuery (friendships db_mutual) 3 2 ∧
  mutualFriendCountQuery (friendships db_mutual) 2 3 ≤
    length (filter (outbound 3) (friendships db_mutual)).
Proof.
  assert (unique_pairs db_mutual) as Hu
    by (apply (bool_decide_unpack _); by vm_compute).
  destruct (mutual_count_symmetric_bounded 2 3 db_mutual Hu)
    as (Hsym & _ & Hle & _).
  by split.
Defined.





(** X13 — the per-user totals.  [userTotalFriendCount] has exactly one row
    for each user with at least one accepted outbound row, and that row
    carries the number of accepted rows whose [userId] is that user; a user
    with no accepted outbound row has no row at all. *)
Theorem userTotalFriendCount_groups (rows : list Friendship) :
  NoDup (fst <$> userTotalFriendCount rows) ∧
  (∀ u n, (u, n) ∈ userTotalFriendCount rows ↔
          n = length (filter (outbound u) rows) ∧ 0 < n).
Proof.
  split.
  - unfold userTotalFriendCount. cbv zeta.
    assert (∀ (g : nat → nat) (l : list nat),
              fst <$> ((λ u, (u, g u)) <$> l) = l) as ->.
    { intros g l. induction l as [|u l IH]; [done|].
      by rewrite !fmap_cons, IH. }
    apply NoDup_remove_dups.
  - intros u n. rewrite elem_of_userTotalFriendCount, Exists_exists.
    split; intros [-> Hpos]; (split; [done|]).
    + destruct Hpos as (row & Hin & Ho).
      assert (row ∈ filter (outbound u) rows) as Hmem
        by by apply list_elem_of_filter.
      destruct (filter (outbound u) rows);
        [by apply elem_of_nil in Hmem|simpl; lia].
    + destruct (filter (outbound u) rows) as [|row l] eqn:Hf;
        [simpl in Hpos; lia|].
      assert (row ∈ filter (outbound u) rows) as Hmem by (rewrite Hf; left).
      apply list_elem_of_filter in Hmem as [Ho Hin]. by exists row.
Qed.

(** ** What the mutations never do *)

Lemma exec_length call db :
  length (friendships (exec call db)) ≤ S (length (friendships db)).
Proof.
  pose proof (length_fmap key_of (friendships (exec call db))) as Hl.
  unfold exec in *.
  destruct call as [[c|] t|[c|] r|[c|] r]; cbn [handler] in *; try (simpl; lia).
  - rewrite send_cases in *. case_decide; [|simpl; lia].
    destruct (edgeStatus db c t) as [[]|]; cbn [fst] in *;
      rewrite ?keys_set_edge, ?keys_add_edge, ?length_app, ?length_fmap in Hl;
      simpl in *; lia.
  - rewrite accept_cases in *. case_decide; [|simpl; lia]. cbv zeta in *.
    destruct (edgeStatus _ c r); cbn [fst] in *;
      rewrite ?keys_add_edge, ?length_app, !keys_set_edge, ?length_fmap in Hl;
      simpl in *; lia.
  - rewrite decline_cases in *. case_decide; cbn [fst] in *; [|lia].
    rewrite keys_set_edge, length_fmap in Hl. lia.
Qed.

(** X14 — bounds on what a history writes.  No sequence of send, accept and
    decline calls changes the [users] table, and it adds at most one
    friendship row per call; a decline adds none. *)
Theorem history_writes_bounded cs db :
  users (run cs db) = users db ∧
  length (friendships (run cs db)) ≤ length (friendships db) + length cs ∧
  (∀ s f, length (friendships (exec (Decline s f) db)) =
          length (friendships db)).
Proof.
  split_and!.
  - induction cs as [|call cs IH] using rev_ind; [done|].
    by rewrite run_snoc, exec_users.
  - induction cs as [|call cs IH] using rev_ind; [simpl; lia|].
    rewrite run_snoc, length_app. simpl.
    pose proof (exec_length call (run cs db)). lia.
  - intros [c|] r; [|done]. unfold exec; cbn [handler].
    rewrite decline_cases. case_decide; [|done]. cbn [fst].
    rewrite <- (length_fmap key_of), keys_set_edge. apply length_fmap.
Qed.

(** ** Friends, read either way *)

Lemma edgeStatus_unique db x y s :
  unique_pairs db →
  edgeStatus db x y = Some s ↔
  ∃ row, row ∈ friendships db ∧ userId row = x ∧ friendUserId row = y ∧
         status row = s.
Proof.
  intros Hu. pose proof (unique_pairs_rows db x y Hu) as Hlen.
  rewrite edgeStatus_rows. split.
  - destruct (edgeRows db x y) as [|row l] eqn:Hrows; [done|].
    simpl. intros [= Hs]. exists row.
    assert (row ∈ edgeRows db x y) as Hmem by (rewrite Hrows; left).
    apply edgeRows_elem in Hmem as (? & ? & ?). done.
  - intros (row & Hin & Hx & Hy & Hs).
    assert (row ∈ edgeRows db x y) as Hmem by by apply edgeRows_elem.
    destruct (edgeRows db x y) as [|r1 [|r2 l]];
      [by apply elem_of_nil in Hmem| |simpl in Hlen; lia].
    apply list_elem_of_singleton in Hmem as ->. simpl. by rewrite Hs.
Qed.

(** X15 — the friend relation is symmetric.  In every store reached from a
    fresh one through send, accept and decline, the users to whom u has an
    accepted row are exactly the users who have an accepted row to u: the
    outbound sets that the counts of [getById] are taken over are also the
    inbound ones. *)
Theorem friends_outbound_inbound cs db u :
  fresh db → accepted_out (run cs db) u = accepted_in (run cs db) u.
Proof.
  intros Hfresh.
  pose proof (run_unique_pairs cs db (fresh_unique_pairs db Hfresh)) as Hu.
  pose proof (run_symmetric cs db Hfresh) as Hsym.
  apply set_eq. intros x. unfold accepted_out, accepted_in.
  rewrite !elem_of_list_to_set, !list_elem_of_fmap. split.
  - intros (row & -> & [[Hrow Hs] Hin]%list_elem_of_filter).
    assert (edgeStatus (run cs db) u (friendUserId row) = Some accepted) as Hacc
      by (apply edgeStatus_unique; [done|by exists row]).
    apply Hsym, edgeStatus_unique in Hacc as (row' & Hin' & Hx & Hy & Hs');
      [|done].
    exists row'. split; [done|]. by apply list_elem_of_filter.
  - intros (row & -> & [[Hrow Hs] Hin]%list_elem_of_filter).
    assert (edgeStatus (run cs db) (userId row) u = Some accepted) as Hacc
      by (apply edgeStatus_unique; [done|by exists row]).
    apply Hsym, edgeStatus_unique in Hacc as (row' & Hin' & Hx & Hy & Hs');
      [|done].
    exists row'. split; [done|]. by apply list_elem_of_filter.
Qed.

Lemma friends_outbound_inbound_witness :
  accepted_out db_mutual 2 = accepted_in db_mutual 2.
Proof.
  apply (friends_outbound_inbound
           [Send (Some 1) 2; Accept (Some 2) 1; Send (Some 1) 3;
            Accept (Some 3) 1; Send (Some 4) 2; Accept (Some 2) 4;
            Send (Some 4) 3; Accept (Some 3) 4; Send (Some 2) 3;
            Accept (Some 3) 2] db0 2).
  reflexivity.
Defined.
